(** * The synchronisation engine of [dev.py]

    A shallow embedding of the file synchronisation monitor of
    [dev.py] ([FilePair], [SyncMonitor.calculate_file_hash],
    [SyncMonitor.sync_file], [SyncMonitor.validate_all_pairs],
    [SyncMonitor.run], [SyncMonitor._monitor_loop]) together with the
    parts of the Python library it calls ([hashlib.sha256], [open]/[read],
    [Path.exists], [Path.mkdir], [shutil.copy2], [datetime.now]).

    Conventions of the model:
    - a path is the list of its components, the file system a finite map
      from paths to nodes (regular file with content and metadata, or
      directory);
    - the program runs in a state-and-exception monad: a raised exception
      keeps the mutations made before it, as in Python;
    - failures the file system decides (missing file, directory in the way)
      are computed from the file system; failures the environment decides
      (permission denied, I/O error, disk full) come from a per-call oracle;
    - the logger, the console, the live display and the notifier are sinks:
      what the program hands to them is appended to a trace;
    - time is a clock in microseconds; file-system work advances it by the
      durations the oracle gives, reading it does not;
    - the float seconds of the polling loop are exact rationals. *)

From Stdlib Require Import NArith ZArith QArith Qround List String Ascii Lia Lqa.
From Stdlib.Strings Require Import Byte.
From stdpp Require Import base option list gmap strings.

(** ** SHA-256 (FIPS 180-4), the digest behind [hashlib.sha256] *)

Module SHA256.
Local Open Scope N_scope.

Definition mask32 : N := 0xFFFFFFFF.
Definition add32 (a b : N) : N := N.land (a + b) mask32.
Definition rotr (n x : N) : N :=
  N.lor (N.shiftr x n) (N.land (N.shiftl x (32 - n)) mask32).
Definition shr (n x : N) : N := N.shiftr x n.
Definition not32 (x : N) : N := N.lxor x mask32.
Definition xor3 (a b c : N) : N := N.lxor (N.lxor a b) c.

Definition Ch (x y z : N) : N := N.lxor (N.land x y) (N.land (not32 x) z).
Definition Maj (x y z : N) : N := xor3 (N.land x y) (N.land x z) (N.land y z).
Definition Sigma0 (x : N) : N := xor3 (rotr 2 x) (rotr 13 x) (rotr 22 x).
Definition Sigma1 (x : N) : N := xor3 (rotr 6 x) (rotr 11 x) (rotr 25 x).
Definition sigma0 (x : N) : N := xor3 (rotr 7 x) (rotr 18 x) (shr 3 x).
Definition sigma1 (x : N) : N := xor3 (rotr 17 x) (rotr 19 x) (shr 10 x).

(** The constants are given by the standard as the first 32 bits of the
    fractional parts of roots of the first primes: cube roots of the
    first 64 for the round constants, square roots of the first 8 for the
    initial hash value. *)
Definition is_prime (n : N) : bool :=
  (1 <? n) && forallb (λ d, negb (n mod N.of_nat d =? 0)) (seq 2 (N.to_nat n - 2)).

Definition primes (k : nat) : list N :=
  firstn k (List.filter is_prime (map N.of_nat (seq 2 310))).

(** The integer cube root, bit by bit from bit [b - 1] down. *)
Fixpoint root3 (b : nat) (n r : N) : N :=
  match b with
  | O => r
  | S b' =>
      let r' := r + 2 ^ N.of_nat b' in
      root3 b' n (if r' * r' * r' <=? n then r' else r)
  end.

Definition K : list N :=
  Eval vm_compute in map (λ p, root3 40 (p * 2 ^ 96) 0 mod 2 ^ 32) (primes 64).

Definition H0 : list N :=
  Eval vm_compute in map (λ p, N.sqrt (p * 2 ^ 64) mod 2 ^ 32) (primes 8).

(** Big-endian bytes of a number, [k] of them. *)
Fixpoint be_bytes (k : nat) (x : N) : list N :=
  match k with
  | O => []
  | S k' => N.land (N.shiftr x (8 * N.of_nat k')) 0xFF :: be_bytes k' x
  end.

(** Padding: the byte 0x80, zero bytes up to 56 modulo 64, then the
    length in bits on 64 bits. *)
Definition pad (msg : list byte) : list N :=
  let l := N.of_nat (length msg) in
  let zeros := N.to_nat ((119 - l mod 64) mod 64) in
  map Byte.to_N msg ++ [0x80] ++ repeat 0 zeros ++ be_bytes 8 (8 * l).

Fixpoint words (fuel : nat) (bs : list N) : list N :=
  match fuel, bs with
  | S fuel', b0 :: b1 :: b2 :: b3 :: rest =>
      (N.shiftl b0 24 + N.shiftl b1 16 + N.shiftl b2 8 + b3) :: words fuel' rest
  | _, _ => []
  end.

Fixpoint blocks (fuel : nat) (ws : list N) : list (list N) :=
  match fuel, ws with
  | S fuel', _ :: _ => firstn 16 ws :: blocks fuel' (skipn 16 ws)
  | _, _ => []
  end.

(** The message schedule: 16 words of the block, extended to 64. *)
Fixpoint schedule (n : nat) (w : list N) : list N :=
  match n with
  | O => w
  | S n' =>
      let t := length w in
      let x := add32 (add32 (sigma1 (nth (t - 2) w 0)) (nth (t - 7) w 0))
                     (add32 (sigma0 (nth (t - 15) w 0)) (nth (t - 16) w 0)) in
      schedule n' (w ++ [x])
  end.

Record regs := Regs { ra : N; rb : N; rc : N; rd : N; re : N; rf : N; rg : N; rh : N }.

Definition round (r : regs) (kw : N * N) : regs :=
  let t1 := add32 (add32 (add32 (rh r) (Sigma1 (re r))) (Ch (re r) (rf r) (rg r)))
                  (add32 (fst kw) (snd kw)) in
  let t2 := add32 (Sigma0 (ra r)) (Maj (ra r) (rb r) (rc r)) in
  Regs (add32 t1 t2) (ra r) (rb r) (rc r) (add32 (rd r) t1) (re r) (rf r) (rg r).

Definition compress (h : regs) (block : list N) : regs :=
  let w := schedule 48 block in
  let r := fold_left round (combine K w) h in
  Regs (add32 (ra h) (ra r)) (add32 (rb h) (rb r)) (add32 (rc h) (rc r))
       (add32 (rd h) (rd r)) (add32 (re h) (re r)) (add32 (rf h) (rf r))
       (add32 (rg h) (rg r)) (add32 (rh h) (rh r)).

Definition init : regs :=
  Regs (nth 0 H0 0) (nth 1 H0 0) (nth 2 H0 0) (nth 3 H0 0)
       (nth 4 H0 0) (nth 5 H0 0) (nth 6 H0 0) (nth 7 H0 0).

Definition digest (msg : list byte) : list N :=
  let bs := pad msg in
  let r := fold_left compress (blocks (length bs) (words (length bs) bs)) init in
  concat (map (be_bytes 4) [ra r; rb r; rc r; rd r; re r; rf r; rg r; rh r]).

Definition hexdigit (n : N) : ascii :=
  nth (N.to_nat n) (list_ascii_of_string "0123456789abcdef") "0"%char.

Fixpoint hex (bs : list N) : string :=
  match bs with
  | [] => EmptyString
  | b :: rest => String (hexdigit (N.shiftr b 4)) (String (hexdigit (N.land b 0xF)) (hex rest))
  end.

Definition hexdigest (msg : list byte) : string := hex (digest msg).
End SHA256.

(** The object returned by [hashlib.sha256()]: [update] appends to the
    message fed so far, [hexdigest] is the digest of that message in
    lower-case hexadecimal. *)
Record hasher := Hasher { fed : list byte }.
Definition sha256_new : hasher := Hasher [].
Definition update (h : hasher) (chunk : list byte) : hasher := Hasher (fed h ++ chunk).
Definition hexdigest (h : hasher) : string := SHA256.hexdigest (fed h).

(** ** Paths and the file system *)

Abbreviation Path := (list string).

Record Meta := { mtime : Z; mode : N }.
Inductive node := File (content : list byte) (meta : Meta) | Dir.
Abbreviation FS := (gmap Path node).

(** [Path.parent]; the root is its own parent. *)
Definition parent (p : Path) : Path := removelast p.
(** [Path.name]: the last component. *)
Definition name (p : Path) : string := List.last p EmptyString.
(** The root directory always exists. *)
Definition node_at (fs : FS) (p : Path) : option node :=
  match p with [] => Some Dir | _ => fs !! p end.

(** ** Exceptions *)

Inductive exn :=
| FileNotFoundError (p : Path)
| IsADirectoryError (p : Path)
| NotADirectoryError (p : Path)
| FileExistsError (p : Path)
| PermissionError (p : Path)
| SameFileError (p : Path)
| OSError (p : Path)
| IndexError (i : nat)
| NotifierError
| KeyboardInterrupt.

(** [except Exception] catches everything but the [BaseException]s. *)
Definition is_Exception (e : exn) : bool :=
  match e with KeyboardInterrupt => false | _ => true end.

(** ** The data model: [FilePair], the statistics dictionary, [SyncMonitor] *)

Inductive Status := pending | syncing | synced | error.
Global Instance Status_eq_dec : EqDecision Status.
Proof. solve_decision. Defined.

#[projections(primitive)] Record FilePair := {
  source : Path;
  target : Path;
  last_hash : option string;
  last_sync : option Z;
  status : Status;
  error_count : N;
}.

(** [FilePair(source, target)] with the defaults of the dataclass. *)
Definition new_FilePair (src tgt : Path) : FilePair :=
  {| source := src; target := tgt; last_hash := None; last_sync := None;
     status := pending; error_count := 0 |}.

(** [self.stats]: a dictionary with a fixed set of keys, one field per key. *)
Module Stats.
#[projections(primitive)] Record t := {
  sync_count : N;
  error_count : N;
  start_time : option Z;
  last_sync : option Z;
  total_files : nat;
  synced_files : nat;
  uptime : Z;
}.
End Stats.

#[projections(primitive)] Record SyncMonitor := {
  file_pairs : list FilePair;
  check_interval : Q;
  enable_notifications : bool;
  running : bool;
  last_update : Z;
  notifier : bool;   (* [self.notifier] is not [None] *)
  stats : Stats.t;
  live : bool;       (* [self.live] is not [None] *)
  layout : bool;     (* [self.layout] is not [None] *)
}.

(** ** What the sinks receive *)

Inductive text :=
| FailedToHash (p : Path) (e : exn)          (* Failed to hash file {file_path}: {e} *)
| SyncingMsg (s t : Path)                    (* Syncing {source} -> {target} *)
| SynchronizedMsg (n : string)               (* {source.name} synchronized successfully *)
| ArrowMsg (n : string) (t : Path)           (* {source.name} -> {target} *)
| FailedToSync (s : Path) (e : exn)          (* Failed to sync {source}: {e} *)
| FailedToNotify (e : exn)                   (* Failed to send notification: {e} *)
| SourceMissing (s : Path)                   (* Source file does not exist: {source} *)
| SourceNotFile (s : Path)                   (* Source is not a file: {source} *)
| MonitorError (e : exn)                     (* Monitor error: {e} *)
| TotalRuntime (d : Z)                       (* Total runtime: {duration} *)
| Summary (d : Z) (syncs errors : N) (files : nat)
| InitialInfo (pairs : list (Path * Path))
| Plain (s : string).

Inductive level := INFO | WARNING | EXCEPTION.
Inductive note_type := file_changed | sync_error.

Inductive Event :=
| Log (l : level) (m : text)                              (* logger.info / warning / exception *)
| ConsolePrint (ok : bool) (m : text)                     (* console.print, green or red mark *)
| Notify (nt : note_type) (title : string) (m : text)     (* self.notifier.notify *)
| LiveUpdate (shown : list Status) (st : Stats.t)         (* self.live.update *)
| Print (m : text)                                        (* print *)
| Sleep (d : Q).                                          (* time.sleep *)

(** ** The state the program runs in *)

#[projections(primitive)] Record State := {
  self : SyncMonitor;
  fs : FS;
  clock : Z;               (* microseconds *)
  RICH_AVAILABLE : bool;
  trace : list Event;
}.

Definition with_self (f : SyncMonitor → SyncMonitor) (s : State) : State :=
  {| self := f (self s); fs := fs s; clock := clock s;
     RICH_AVAILABLE := RICH_AVAILABLE s; trace := trace s |}.
Definition with_fs (f : FS → FS) (s : State) : State :=
  {| self := self s; fs := f (fs s); clock := clock s;
     RICH_AVAILABLE := RICH_AVAILABLE s; trace := trace s |}.
Definition with_clock (f : Z → Z) (s : State) : State :=
  {| self := self s; fs := fs s; clock := f (clock s);
     RICH_AVAILABLE := RICH_AVAILABLE s; trace := trace s |}.
Definition with_trace (f : list Event → list Event) (s : State) : State :=
  {| self := self s; fs := fs s; clock := clock s;
     RICH_AVAILABLE := RICH_AVAILABLE s; trace := f (trace s) |}.

Definition with_pairs (f : list FilePair → list FilePair) (m : SyncMonitor) : SyncMonitor :=
  {| file_pairs := f (file_pairs m); check_interval := check_interval m;
     enable_notifications := enable_notifications m; running := running m;
     last_update := last_update m; notifier := notifier m; stats := stats m;
     live := live m; layout := layout m |}.
Definition with_stats (f : Stats.t → Stats.t) (m : SyncMonitor) : SyncMonitor :=
  {| file_pairs := file_pairs m; check_interval := check_interval m;
     enable_notifications := enable_notifications m; running := running m;
     last_update := last_update m; notifier := notifier m; stats := f (stats m);
     live := live m; layout := layout m |}.
Definition set_last_update (t : Z) (m : SyncMonitor) : SyncMonitor :=
  {| file_pairs := file_pairs m; check_interval := check_interval m;
     enable_notifications := enable_notifications m; running := running m;
     last_update := t; notifier := notifier m; stats := stats m;
     live := live m; layout := layout m |}.

Definition set_status (x : Status) (p : FilePair) : FilePair :=
  {| source := source p; target := target p; last_hash := last_hash p;
     last_sync := last_sync p; status := x; error_count := error_count p |}.
Definition set_last_hash (h : option string) (p : FilePair) : FilePair :=
  {| source := source p; target := target p; last_hash := h;
     last_sync := last_sync p; status := status p; error_count := error_count p |}.
Definition set_last_sync (t : option Z) (p : FilePair) : FilePair :=
  {| source := source p; target := target p; last_hash := last_hash p;
     last_sync := t; status := status p; error_count := error_count p |}.
Definition incr_error_count (p : FilePair) : FilePair :=
  {| source := source p; target := target p; last_hash := last_hash p;
     last_sync := last_sync p; status := status p; error_count := (error_count p + 1)%N |}.

Definition incr_sync_count (st : Stats.t) : Stats.t :=
  {| Stats.sync_count := (Stats.sync_count st + 1)%N; Stats.error_count := Stats.error_count st;
     Stats.start_time := Stats.start_time st; Stats.last_sync := Stats.last_sync st;
     Stats.total_files := Stats.total_files st; Stats.synced_files := Stats.synced_files st;
     Stats.uptime := Stats.uptime st |}.
Definition incr_stats_error_count (st : Stats.t) : Stats.t :=
  {| Stats.sync_count := Stats.sync_count st; Stats.error_count := (Stats.error_count st + 1)%N;
     Stats.start_time := Stats.start_time st; Stats.last_sync := Stats.last_sync st;
     Stats.total_files := Stats.total_files st; Stats.synced_files := Stats.synced_files st;
     Stats.uptime := Stats.uptime st |}.
Definition set_stats_last_sync (t : option Z) (st : Stats.t) : Stats.t :=
  {| Stats.sync_count := Stats.sync_count st; Stats.error_count := Stats.error_count st;
     Stats.start_time := Stats.start_time st; Stats.last_sync := t;
     Stats.total_files := Stats.total_files st; Stats.synced_files := Stats.synced_files st;
     Stats.uptime := Stats.uptime st |}.
Definition set_synced_files (n : nat) (st : Stats.t) : Stats.t :=
  {| Stats.sync_count := Stats.sync_count st; Stats.error_count := Stats.error_count st;
     Stats.start_time := Stats.start_time st; Stats.last_sync := Stats.last_sync st;
     Stats.total_files := Stats.total_files st; Stats.synced_files := n;
     Stats.uptime := Stats.uptime st |}.
Definition set_uptime (d : Z) (st : Stats.t) : Stats.t :=
  {| Stats.sync_count := Stats.sync_count st; Stats.error_count := Stats.error_count st;
     Stats.start_time := Stats.start_time st; Stats.last_sync := Stats.last_sync st;
     Stats.total_files := Stats.total_files st; Stats.synced_files := Stats.synced_files st;
     Stats.uptime := d |}.

(** ** The monad: state, and exceptions that keep the state *)

Inductive Result (A : Type) := Ok (a : A) | Raised (e : exn).
Arguments Ok {A} a.
Arguments Raised {A} e.

Definition M (A : Type) : Type := State → Result A * State.

Global Instance M_ret : MRet M := λ A a s, (Ok a, s).
Global Instance M_bind : MBind M := λ A B f m s,
  match m s with
  | (Ok a, s') => f a s'
  | (Raised e, s') => (Raised e, s')
  end.

Definition get : M State := λ s, (Ok s, s).
Definition modify (f : State → State) : M unit := λ s, (Ok tt, f s).
Definition raise {A} (e : exn) : M A := λ s, (Raised e, s).
Definition emit (ev : Event) : M unit := modify (with_trace (λ t, t ++ [ev])).

(** [try: body except Exception as e: handler e] *)
Definition try_except {A} (body : M A) (handler : exn → M A) : M A := λ s,
  match body s with
  | (Raised e, s') => if is_Exception e then handler e s' else (Raised e, s')
  | r => r
  end.

(** [try: body finally: final] *)
Definition try_finally {A} (body : M A) (final : M unit) : M A := λ s,
  let '(r, s') := body s in
  match final s' with
  | (Ok _, s'') => (r, s'')
  | (Raised e, s'') => (Raised e, s'')
  end.

(** [if c: m] *)
Definition when (c : bool) (m : M unit) : M unit := if c then m else mret tt.


(** ** The sinks *)

Definition logger_info (m : text) : M unit := emit (Log INFO m).
Definition logger_warning (m : text) : M unit := emit (Log WARNING m).
Definition logger_exception (m : text) : M unit := emit (Log EXCEPTION m).
Definition console_print (ok : bool) (m : text) : M unit := emit (ConsolePrint ok m).

(** ** The clock *)

(** [datetime.now()] *)
Definition now : M Z := s ← get; mret (clock s).
(** Work that takes [d] microseconds. *)
Definition elapse (d : N) : M unit := modify (with_clock (λ t, t + Z.of_N d)%Z).

(** ** What the environment decides *)

(** For one call of [calculate_file_hash]: whether [open] is refused, at
    which call of [f.read] (counted from 0) an I/O error is raised, if the
    loop gets that far, and how long the hashing takes. *)
Record HashOracle := {
  open_denied : bool;
  read_error_at : option nat;
  hash_cost : N;
}.

(** How [shutil.copy2] fails, when it does: before the target is opened;
    after [k] bytes were written (disk full, I/O error); or in [copystat],
    after all bytes were written. *)
Inductive CopyFault := CopyDenied | CopyShort (k : nat) | CopyStat.

Record NotifyOracle := {
  icon_raises : bool;      (* reading the icon file fails *)
  notify_raises : bool;    (* [notifier.notify] fails *)
}.

(** For one call of [sync_file]. *)
Record Oracle := {
  o_source : HashOracle;
  o_target : HashOracle;
  mkdir_denied : bool;
  copy_fault : option CopyFault;
  copy_cost : N;
  o_notify : NotifyOracle;
}.

(** ** File-system operations of the Python library *)

(** [Path.exists] *)
Definition path_exists (p : Path) : M bool :=
  s ← get; mret (bool_decide (is_Some (node_at (fs s) p))).

(** [open(p, 'rb')]: the bytes the handle will deliver. *)
Definition open_rb (denied : bool) (p : Path) : M (list byte) :=
  s ← get;
  match node_at (fs s) p with
  | None => raise (FileNotFoundError p)
  | Some Dir => raise (IsADirectoryError p)
  | Some (File c _) => if denied then raise (PermissionError p) else mret c
  end.

(** [for chunk in iter(lambda: f.read(size), b''): hasher.update(chunk)]:
    [rest] is what the handle has not delivered yet and [k] counts the
    calls of [f.read]. A read delivers [size] bytes, or what is left; the
    loop stops at the first empty chunk. Every round but the last shortens
    [rest], so [S (length rest)] rounds of [fuel] are enough. *)
Fixpoint read_loop (fuel : nat) (size : nat) (p : Path) (err : option nat) (k : nat)
    (rest : list byte) (h : hasher) : Result hasher :=
  match fuel with
  | O => Raised (OSError p)
  | S fuel' =>
      if decide (err = Some k) then Raised (OSError p)
      else
        match take size rest with
        | [] => Ok h
        | chunk => read_loop fuel' size p err (S k) (drop size rest) (update h chunk)
        end
  end.

Definition lift {A} (r : Result A) : M A := λ s, (r, s).

(** [Path.mkdir(parents=True, exist_ok=True)] on the file system: walking
    down from the root, a directory that exists is kept, a missing one is
    created, and a regular file in the way raises. What was created before
    a failure stays. *)
Fixpoint fs_mkdir_from (denied : bool) (done : Path) (todo : list string) (f : FS)
    : Result unit * FS :=
  match todo with
  | [] => (Ok tt, f)
  | c :: todo' =>
      let q := done ++ [c] in
      match f !! q with
      | Some Dir => fs_mkdir_from denied q todo' f
      | Some (File _ _) =>
          (Raised (match todo' with [] => FileExistsError q | _ => NotADirectoryError q end), f)
      | None =>
          if denied then (Raised (PermissionError q), f)
          else fs_mkdir_from denied q todo' (<[q := Dir]> f)
      end
  end.

Definition fs_mkdir (denied : bool) (p : Path) (f : FS) : Result unit * FS :=
  fs_mkdir_from denied [] p f.

(** Metadata of a file written afresh: modified now, and the mode of the
    file it replaces or the default one. *)
Definition fresh_meta (t : Z) (f : FS) (dst : Path) : Meta :=
  {| mtime := t;
     mode := match f !! dst with Some (File _ m) => mode m | _ => 0x1a4%N end |}.  (* 0o644 *)

(** Where [shutil.copy2(src, dst)] writes: [dst], or the name of [src]
    under [dst] when [dst] is a directory. *)
Definition copy_destination (f : FS) (src dst : Path) : Path :=
  match node_at f dst with Some Dir => dst ++ [name src] | _ => dst end.

(** [shutil.copy2(src, dst)] on the file system, at time [t]: [copyfile]
    then [copystat]. *)
Definition fs_copy2 (fault : option CopyFault) (t : Z) (src dst : Path) (f : FS)
    : Result unit * FS :=
  let dst := copy_destination f src dst in
  if decide (src = dst) then (Raised (SameFileError src), f)
  else
    match node_at f src with
    | None => (Raised (FileNotFoundError src), f)
    | Some Dir => (Raised (IsADirectoryError src), f)
    | Some (File c m) =>
        match fault with
        | Some CopyDenied => (Raised (PermissionError dst), f)
        | _ =>
            match node_at f (parent dst) with
            | None => (Raised (FileNotFoundError dst), f)
            | Some (File _ _) => (Raised (NotADirectoryError dst), f)
            | Some Dir =>
                match node_at f dst with
                | Some Dir => (Raised (IsADirectoryError dst), f)
                | _ =>
                    match fault with
                    | Some (CopyShort k) =>
                        (Raised (OSError dst), <[dst := File (take k c) (fresh_meta t f dst)]> f)
                    | Some CopyStat =>
                        (Raised (PermissionError dst), <[dst := File c (fresh_meta t f dst)]> f)
                    | _ => (Ok tt, <[dst := File c m]> f)
                    end
                end
            end
        end
    end.

(** A file-system operation run by the program. *)
Definition on_fs {A} (op : FS → Result A * FS) : M A := λ s,
  (fst (op (fs s)), with_fs (λ _, snd (op (fs s))) s).

Definition mkdir (denied : bool) (p : Path) : M unit := on_fs (fs_mkdir denied p).

Definition copy2 (fault : option CopyFault) (src dst : Path) : M unit :=
  s ← get; on_fs (fs_copy2 fault (clock s) src dst).





(** ** [FilePair.validate] *)


(** ** [SyncMonitor] *)

(** What [_create_stats_panel] does to [self.stats] while it renders. *)
Definition _create_stats_panel : M unit :=
  s ← get;
  match Stats.start_time (stats (self s)) with
  | Some t0 => t ← now; modify (with_self (with_stats (set_uptime (t - t0)%Z)))
  | None => mret tt
  end ;;
  s ← get;
  let n := length (filter (λ p, status p = synced) (file_pairs (self s))) in
  modify (with_self (with_stats (set_synced_files n))).

Definition _create_live_display : M unit :=
  s ← get;
  if layout (self s) then _create_stats_panel else mret tt.

Definition _display_status_live : M unit :=
  s ← get;
  if negb (RICH_AVAILABLE s) || negb (live (self s)) then mret tt
  else
    _create_live_display ;;
    s ← get;
    emit (LiveUpdate (status <$> file_pairs (self s)) (stats (self s))).

Definition _send_notification (o : NotifyOracle) (title : string) (message : text)
    (nt : note_type) : M unit :=
  s ← get;
  if notifier (self s) && enable_notifications (self s) then
    try_except
      (if icon_raises o then raise (PermissionError ["pypihub.png"])
       else
         emit (Notify nt title message) ;;
         if notify_raises o then raise NotifierError else mret tt)
      (λ e, logger_warning (FailedToNotify e))
  else mret tt.

Definition calculate_file_hash (o : HashOracle) (file_path : Path) : M (option string) :=
  try_except
    (let hasher := sha256_new in
     elapse (hash_cost o) ;;
     f ← open_rb (open_denied o) file_path;
     hasher ← lift (read_loop (S (length f)) 4096 file_path (read_error_at o) 0 f hasher);
     mret (Some (hexdigest hasher)))
    (λ e, logger_exception (FailedToHash file_path e) ;; mret None).

(** The pair a call works on is an element of [self.file_pairs], which the
    display reads too: it is named by its index in that list. *)
Definition the_pair (i : nat) : M FilePair :=
  s ← get;
  match file_pairs (self s) !! i with
  | Some p => mret p
  | None => raise (IndexError i)
  end.

Definition modify_pair (i : nat) (f : FilePair → FilePair) : M unit :=
  modify (with_self (with_pairs (alter f i))).

Definition modify_stats (f : Stats.t → Stats.t) : M unit :=
  modify (with_self (with_stats f)).

Definition sync_file (o : Oracle) (i : nat) : M bool :=
  try_finally
    (try_except
       (modify_pair i (set_status syncing) ;;
        _display_status_live ;;
        file_pair ← the_pair i;
        source_hash ← calculate_file_hash (o_source o) (source file_pair);
        match source_hash with
        | None =>
            modify_pair i (set_status error) ;;
            modify_pair i incr_error_count ;;
            mret false
        | Some _ =>
            ex ← path_exists (target file_pair);
            target_hash ← (if (ex : bool) return M (option string)
                           then calculate_file_hash (o_target o) (target file_pair)
                           else mret None);
            if decide (source_hash = target_hash) then
              modify_pair i (set_status synced) ;;
              _display_status_live ;;
              mret true
            else
              logger_info (SyncingMsg (source file_pair) (target file_pair)) ;;
              elapse (copy_cost o) ;;
              mkdir (mkdir_denied o) (parent (target file_pair)) ;;
              copy2 (copy_fault o) (source file_pair) (target file_pair) ;;
              modify_pair i (set_last_hash source_hash) ;;
              t ← now; modify_pair i (set_last_sync (Some t)) ;;
              modify_pair i (set_status synced) ;;
              modify_stats incr_sync_count ;;
              t ← now; modify_stats (set_stats_last_sync (Some t)) ;;
              t ← now; modify (with_self (set_last_update t)) ;;
              let message := SynchronizedMsg (name (source file_pair)) in
              logger_info message ;;
              s ← get;
              when (RICH_AVAILABLE s) (console_print true message) ;;
              _send_notification (o_notify o) "File Synchronized"
                (ArrowMsg (name (source file_pair)) (target file_pair)) file_changed ;;
              mret true
        end)
       (λ e,
          file_pair ← the_pair i;
          let error_msg := FailedToSync (source file_pair) e in
          logger_exception error_msg ;;
          modify_pair i (set_status error) ;;
          modify_pair i incr_error_count ;;
          modify_stats incr_stats_error_count ;;
          s ← get;
          when (RICH_AVAILABLE s) (console_print false error_msg) ;;
          _send_notification (o_notify o) "Sync Error" error_msg sync_error ;;
          mret false))
    _display_status_live.










(** ** What the operations compute, in closed form *)

Definition to_option {A} (r : Result A) : option A :=
  match r with Ok a => Some a | Raised _ => None end.

(** The digest [calculate_file_hash] finds for [p], or the exception its
    [try] block catches. *)
Definition hash_of (o : HashOracle) (f : FS) (p : Path) : Result string :=
  match node_at f p with
  | None => Raised (FileNotFoundError p)
  | Some Dir => Raised (IsADirectoryError p)
  | Some (File c _) =>
      if open_denied o then Raised (PermissionError p)
      else
        match read_loop (S (length c)) 4096 p (read_error_at o) 0 c sha256_new with
        | Ok h => Ok (hexdigest h)
        | Raised e => Raised e
        end
  end.

Definition logged (ev : Event) (s : State) : State := with_trace (λ t, t ++ [ev]) s.
Definition upd_pair (i : nat) (f : FilePair → FilePair) (s : State) : State :=
  with_self (with_pairs (alter f i)) s.
Definition upd_stats (f : Stats.t → Stats.t) (s : State) : State :=
  with_self (with_stats f) s.
Definition later (d : N) (s : State) : State := with_clock (λ t, t + Z.of_N d)%Z s.

(** The state [calculate_file_hash] leaves. *)
Definition hashed (o : HashOracle) (p : Path) (s : State) : State :=
  with_trace
    (λ t, t ++ match hash_of o (fs s) p with
               | Ok _ => []
               | Raised e => [Log EXCEPTION (FailedToHash p e)]
               end)
    (later (hash_cost o) s).

(** The live display is refreshed only with [rich] and inside [Live]. *)
Definition display_active (s : State) : bool := RICH_AVAILABLE s && live (self s).

Definition display_stats (s : State) (st : Stats.t) : Stats.t :=
  if display_active s && layout (self s) then
    set_synced_files (length (filter (λ p, status p = synced) (file_pairs (self s))))
      match Stats.start_time st with
      | Some t0 => set_uptime (clock s - t0)%Z st
      | None => st
      end
  else st.

(** The state [_display_status_live] leaves. *)
Definition displayed (s : State) : State :=
  with_trace
    (λ t, t ++ if display_active s
               then [LiveUpdate (status <$> file_pairs (self s)) (display_stats s (stats (self s)))]
               else [])
    (upd_stats (display_stats s) s).

Definition notify_events (o : NotifyOracle) (m : SyncMonitor) (title : string) (message : text)
    (nt : note_type) : list Event :=
  if notifier m && enable_notifications m then
    if icon_raises o then [Log WARNING (FailedToNotify (PermissionError ["pypihub.png"]))]
    else Notify nt title message ::
         (if notify_raises o then [Log WARNING (FailedToNotify NotifierError)] else [])
  else [].

(** The state [_send_notification] leaves. *)
Definition notified (o : NotifyOracle) (title : string) (message : text) (nt : note_type)
    (s : State) : State :=
  with_trace (λ t, t ++ notify_events o (self s) title message nt) s.

(** The notifications in a trace. *)
Definition is_Notify (ev : Event) : bool :=
  match ev with Notify _ _ _ => true | _ => false end.
Definition notifications (t : list Event) : list Event := List.filter is_Notify t.


(** ** The states [sync_file] ends in, one per path *)

(** After the entry action: status [syncing], display refreshed. *)
Definition begun (i : nat) (s : State) : State :=
  displayed (upd_pair i (set_status syncing) s).

Definition source_hashed (o : Oracle) (i : nat) (p : FilePair) (s : State) : State :=
  hashed (o_source o) (source p) (begun i s).

(** [target_hash]: [None] when the target does not exist or cannot be hashed. *)
Definition target_hash (o : Oracle) (f : FS) (p : FilePair) : option string :=
  if bool_decide (is_Some (node_at f (target p)))
  then to_option (hash_of (o_target o) f (target p))
  else None.

Definition target_hashed (o : Oracle) (i : nat) (p : FilePair) (s : State) : State :=
  if bool_decide (is_Some (node_at (fs s) (target p)))
  then hashed (o_target o) (target p) (source_hashed o i p s)
  else source_hashed o i p s.

Definition end_hash_failed (o : Oracle) (i : nat) (p : FilePair) (s : State) : State :=
  displayed (upd_pair i incr_error_count (upd_pair i (set_status error) (source_hashed o i p s))).

Definition end_noop (o : Oracle) (i : nat) (p : FilePair) (s : State) : State :=
  displayed (displayed (upd_pair i (set_status synced) (target_hashed o i p s))).

(** When the copy starts. *)
Definition copying (o : Oracle) (i : nat) (p : FilePair) (s : State) : State :=
  later (copy_cost o)
    (logged (Log INFO (SyncingMsg (source p) (target p))) (target_hashed o i p s)).

(** What [mkdir] then [copy2] do to the file system, at time [t]. *)
Definition fs_sync (o : Oracle) (t : Z) (p : FilePair) (f : FS) : Result unit * FS :=
  match fs_mkdir (mkdir_denied o) (parent (target p)) f with
  | (Ok _, f1) => fs_copy2 (copy_fault o) t (source p) (target p) f1
  | r => r
  end.

Definition console_printed (ok : bool) (m : text) (s : State) : State :=
  if RICH_AVAILABLE s then logged (ConsolePrint ok m) s else s.

Definition end_copied (o : Oracle) (i : nat) (p : FilePair) (d : string) (f' : FS)
    (s : State) : State :=
  let s4 := with_fs (λ _, f') (copying o i p s) in
  let t := clock s4 in
  displayed
    (notified (o_notify o) "File Synchronized" (ArrowMsg (name (source p)) (target p))
       file_changed
       (console_printed true (SynchronizedMsg (name (source p)))
          (logged (Log INFO (SynchronizedMsg (name (source p))))
             (with_self (set_last_update t)
                (upd_stats (set_stats_last_sync (Some t))
                   (upd_stats incr_sync_count
                      (upd_pair i (set_status synced)
                         (upd_pair i (set_last_sync (Some t))
                            (upd_pair i (set_last_hash (Some d)) s4))))))))).

Definition end_raised (o : Oracle) (i : nat) (p : FilePair) (e : exn) (f' : FS)
    (s : State) : State :=
  let s4 := with_fs (λ _, f') (copying o i p s) in
  displayed
    (notified (o_notify o) "Sync Error" (FailedToSync (source p) e) sync_error
       (console_printed false (FailedToSync (source p) e)
          (upd_stats incr_stats_error_count
             (upd_pair i incr_error_count
                (upd_pair i (set_status error)
                   (logged (Log EXCEPTION (FailedToSync (source p) e)) s4)))))).

(** What [sync_file] returns for the pair [p], and the state it leaves. *)
Definition sync_file_result (o : Oracle) (i : nat) (p : FilePair) (s : State) : bool * State :=
  match hash_of (o_source o) (fs s) (source p) with
  | Raised _ => (false, end_hash_failed o i p s)
  | Ok d =>
      if decide (Some d = target_hash o (fs s) p) then (true, end_noop o i p s)
      else
        match fs_sync o (clock (copying o i p s)) p (fs s) with
        | (Ok _, f') => (true, end_copied o i p d f' s)
        | (Raised e, f') => (false, end_raised o i p e f' s)
        end
  end.

(** The chunks the reading loop feeds to the hasher, for a file that
    reads without error: [size] bytes each, the last one maybe shorter. *)
Fixpoint chunked (fuel size : nat) (rest : list byte) : list (list byte) :=
  match fuel with
  | O => []
  | S fuel' =>
      match take size rest with
      | [] => []
      | chunk => chunk :: chunked fuel' size (drop size rest)
      end
  end.

(** Whether a call of the hasher on a file of content [c] gets to the end:
    [open] is not refused and no read fails. The loop calls [f.read] once
    per chunk and once more for the empty chunk that ends it, so a read
    error at call [k] is met when [k] is at most the number of chunks. *)
Definition reads_through (o : HashOracle) (c : list byte) : bool :=
  negb (open_denied o) &&
  match read_error_at o with
  | Some k => bool_decide (length (chunked (S (length c)) 4096 c) < k)%nat
  | None => true
  end.

(** A call of the hasher that the environment lets through: [open] is
    not refused and no read fails. *)
Definition no_fault (h : HashOracle) : Prop :=
  open_denied h = false ∧ read_error_at h = None.

(** Whether what is handed to [_send_notification] reaches the notifier:
    there is a notifier, notifications are enabled, and the icon can be
    read. *)
Definition delivered (o : NotifyOracle) (m : SyncMonitor) : bool :=
  notifier m && enable_notifications m && negb (icon_raises o).

(** What no call of [sync_file] on the pair number [i] changes: the
    configuration of the monitor, the other pairs, the source and the
    target of the pair, when the run started and how many files it
    watches; and time does not go back. *)
Definition frame (i : nat) (s s' : State) : Prop :=
  check_interval (self s') = check_interval (self s) ∧
  enable_notifications (self s') = enable_notifications (self s) ∧
  running (self s') = running (self s) ∧
  notifier (self s') = notifier (self s) ∧
  live (self s') = live (self s) ∧
  layout (self s') = layout (self s) ∧
  RICH_AVAILABLE s' = RICH_AVAILABLE s ∧
  Stats.start_time (stats (self s')) = Stats.start_time (stats (self s)) ∧
  Stats.total_files (stats (self s')) = Stats.total_files (stats (self s)) ∧
  length (file_pairs (self s')) = length (file_pairs (self s)) ∧
  (∀ j, j ≠ i → file_pairs (self s') !! j = file_pairs (self s) !! j) ∧
  (∀ p, file_pairs (self s) !! i = Some p →
     ∃ p', file_pairs (self s') !! i = Some p' ∧ source p' = source p ∧ target p' = target p) ∧
  (clock s <= clock s')%Z.






(** The digest a call of [sync_file] on the pair [p] copies: the digest
    of the source, when the call takes the copy path and nothing raises. *)
Definition copied (o : Oracle) (i : nat) (p : FilePair) (s : State) : option string :=
  match hash_of (o_source o) (fs s) (source p) with
  | Ok d =>
      if decide (Some d = target_hash o (fs s) p) then None
      else
        match fst (fs_sync o (clock (copying o i p s)) p (fs s)) with
        | Ok _ => Some d
        | Raised _ => None
        end
  | Raised _ => None
  end.

(** The states a monitor goes through, each with the digest the source of
    the pair number [i] had at the last successful copy of that pair
    ([None] when there was none yet). At the start the pair has no
    [last_hash]; between two calls the files may change and time passes;
    a call of [sync_file] works on any pair of the monitor. *)
Inductive history (i : nat) : State → option string → Prop :=
| history_start s p :
    file_pairs (self s) !! i = Some p → last_hash p = None → history i s None
| history_world s g f t :
    history i s g → history i (with_clock (λ _, t) (with_fs (λ _, f) s)) g
| history_sync s g o j p :
    history i s g → file_pairs (self s) !! j = Some p →
    history i (snd (sync_file o j s))
      (if decide (j = i) then from_option Some g (copied o j p s) else g).





(** ** Concrete inputs *)

Module Ex.
Definition meta0 : Meta := {| mtime := 5; mode := 0x1a4 |}.
Definition stats0 : Stats.t :=
  {| Stats.sync_count := 0; Stats.error_count := 0; Stats.start_time := Some 0%Z;
     Stats.last_sync := None; Stats.total_files := 1; Stats.synced_files := 0;
     Stats.uptime := 0 |}.
Definition a_txt : Path := ["src"; "a.txt"].
Definition b_txt : Path := ["out"; "b.txt"].
Definition gone_txt : Path := ["src"; "gone.txt"].
(** A monitor for the pair [(a.txt, b.txt)], as [main] builds it;
    [lv] tells whether the live display is running. *)
Definition monitor (lv : bool) : SyncMonitor :=
  {| file_pairs := [new_FilePair a_txt b_txt]; check_interval := 1;
     enable_notifications := true; running := true; last_update := 0;
     notifier := true; stats := stats0; live := lv; layout := true |}.
Definition v1 : list byte := list_byte_of_string "v1".
(** [a.txt] holds "v1" and there is no [b.txt]. *)
Definition fs_fresh : FS := <[a_txt := File v1 meta0]> (<[["src"] := Dir]> ∅).
(** [a.txt] and [b.txt] both hold "v1". *)
Definition fs_same : FS :=
  <[b_txt := File v1 meta0]> (<[["out"] := Dir]> fs_fresh).
Definition state (lv : bool) (f : FS) : State :=
  {| self := monitor lv; fs := f; clock := 100; RICH_AVAILABLE := true; trace := [] |}.
Definition reads_well : HashOracle :=
  {| open_denied := false; read_error_at := None; hash_cost := 3 |}.
Definition denied : HashOracle :=
  {| open_denied := true; read_error_at := None; hash_cost := 3 |}.
Definition io_error : HashOracle :=
  {| open_denied := false; read_error_at := Some 0%nat; hash_cost := 3 |}.
Definition delivers : NotifyOracle := {| icon_raises := false; notify_raises := false |}.
(** Nothing fails. *)
Definition calm : Oracle :=
  {| o_source := reads_well; o_target := reads_well; mkdir_denied := false;
     copy_fault := None; copy_cost := 7; o_notify := delivers |}.
(** The source cannot be opened. *)
Definition unreadable : Oracle :=
  {| o_source := denied; o_target := reads_well; mkdir_denied := false;
     copy_fault := None; copy_cost := 7; o_notify := delivers |}.
(** The disk is full after one byte. *)
Definition disk_full : Oracle :=
  {| o_source := reads_well; o_target := reads_well; mkdir_denied := false;
     copy_fault := Some (CopyShort 1); copy_cost := 7; o_notify := delivers |}.
End Ex.

(** * Properties *)

(** ** The state records *)

Lemma State_eta (s : State) :
  {| self := self s; fs := fs s; clock := clock s;
     RICH_AVAILABLE := RICH_AVAILABLE s; trace := trace s |} = s.
Proof. by destruct s. Qed.

Lemma SyncMonitor_eta (m : SyncMonitor) :
  {| file_pairs := file_pairs m; check_interval := check_interval m;
     enable_notifications := enable_notifications m; running := running m;
     last_update := last_update m; notifier := notifier m; stats := stats m;
     live := live m; layout := layout m |} = m.
Proof. by destruct m. Qed.

Lemma with_trace_nil (s : State) : with_trace (λ t, t ++ []) s = s.
Proof. destruct s; unfold with_trace; simpl. by rewrite app_nil_r. Qed.

Lemma with_trace_app (a b : list Event) (s : State) :
  with_trace (λ t, t ++ b) (with_trace (λ t, t ++ a) s) = with_trace (λ t, t ++ (a ++ b)) s.
Proof. unfold with_trace; simpl. by rewrite app_assoc. Qed.

(** ** The chunked reading loop *)

Lemma read_loop_feeds fuel size p err k rest h h' :
  (0 < size)%nat → (length rest < fuel)%nat →
  read_loop fuel size p err k rest h = Ok h' → fed h' = fed h ++ rest.
Proof.
  intros Hsize. revert k rest h.
  induction fuel as [|fuel IH]; intros k rest h Hlen; [lia|]. simpl.
  destruct (decide (err = Some k)) as [|_]; [discriminate|].
  destruct (take size rest) as [|b chunk] eqn:Etake.
  - intros [= <-]. destruct rest as [|b rest]; [by rewrite app_nil_r|].
    destruct size; [lia | discriminate].
  - intros Hrun. apply IH in Hrun.
    + rewrite Hrun. simpl. rewrite <- Etake, <- app_assoc. by rewrite take_drop.
    + rewrite length_drop. destruct rest; [by rewrite take_nil in Etake|]. simpl in *. lia.
Qed.

Lemma read_loop_raises fuel size p err k rest h e :
  read_loop fuel size p err k rest h = Raised e → e = OSError p.
Proof.
  revert k rest h. induction fuel as [|fuel IH]; intros k rest h; simpl.
  - by intros [= <-].
  - destruct (decide (err = Some k)); [by intros [= <-]|].
    destruct (take size rest); [discriminate | apply IH].
Qed.

Lemma read_loop_total fuel size p k rest h :
  (0 < size)%nat → (length rest < fuel)%nat →
  read_loop fuel size p None k rest h = Ok (Hasher (fed h ++ rest)).
Proof.
  intros Hsize. revert k rest h.
  induction fuel as [|fuel IH]; intros k rest h Hlen; [lia|]. simpl.
  destruct (decide (None = Some k)) as [|_]; [discriminate|].
  destruct (take size rest) as [|b chunk] eqn:Etake.
  - destruct rest as [|b rest]; [rewrite app_nil_r; by destruct h|].
    destruct size; [lia | discriminate].
  - rewrite IH.
    + simpl. rewrite <- Etake, <- app_assoc. by rewrite take_drop.
    + rewrite length_drop. destruct rest; [by rewrite take_nil in Etake|]. simpl in *. lia.
Qed.

(** ** [hash_of] *)

Lemma hash_of_Ok o f p d :
  hash_of o f p = Ok d →
  ∃ c m, node_at f p = Some (File c m) ∧ open_denied o = false ∧ d = SHA256.hexdigest c.
Proof.
  unfold hash_of. destruct (node_at f p) as [[c m|]|]; try discriminate.
  destruct (open_denied o); [discriminate|].
  destruct (read_loop _ _ _ _ _ _ _) as [h|e] eqn:Eloop; [|discriminate].
  intros [= <-]. exists c, m. split_and!; try done.
  apply read_loop_feeds in Eloop; [|lia..]. unfold hexdigest. by rewrite Eloop.
Qed.

Lemma hash_of_readable o f p c m :
  node_at f p = Some (File c m) → open_denied o = false → read_error_at o = None →
  hash_of o f p = Ok (SHA256.hexdigest c).
Proof.
  intros Hnode Hopen Hread. unfold hash_of. rewrite Hnode, Hopen, Hread.
  rewrite read_loop_total by lia. done.
Qed.

Lemma hash_of_Raised o f p e : hash_of o f p = Raised e → is_Exception e = true.
Proof.
  unfold hash_of. destruct (node_at f p) as [[c m|]|]; try by intros [= <-].
  destruct (open_denied o); [by intros [= <-]|].
  destruct (read_loop _ _ _ _ _ _ _) as [h|e'] eqn:Eloop; [discriminate|].
  intros [= <-]. by rewrite (read_loop_raises _ _ _ _ _ _ _ _ Eloop).
Qed.

(** ** The operations run as their closed forms say *)

Arguments SHA256.hexdigest : simpl never.
Arguments hexdigest : simpl never.
Arguments read_loop : simpl never.

Ltac unfold_monad :=
  unfold try_except, try_finally, when, logger_info, logger_warning, logger_exception,
    console_print, elapse, now, lift, on_fs, emit, modify, get, raise,
    mbind, M_bind, mret, M_ret in *.

Lemma calculate_file_hash_run o p s :
  calculate_file_hash o p s = (Ok (to_option (hash_of o (fs s) p)), hashed o p s).
Proof.
  unfold calculate_file_hash, hashed, hash_of, open_rb, later. unfold_monad.
  cbn. destruct (node_at (fs s) p) as [[c m|]|]; cbn; try done.
  destruct (open_denied o); cbn; [done|].
  destruct (read_loop _ _ _ _ _ _ _) as [h|e] eqn:Eloop; cbn.
  - by rewrite with_trace_nil.
  - by rewrite (read_loop_raises _ _ _ _ _ _ _ _ Eloop).
Qed.

Lemma display_run s : _display_status_live s = (Ok tt, displayed s).
Proof.
  unfold _display_status_live, displayed, display_stats, display_active, upd_stats,
    _create_live_display, _create_stats_panel. unfold_monad.
  destruct s as [m f t rich tr], m as [ps ci en rn lu nf st lv ly].
  unfold with_trace, with_self, with_stats; cbn.
  destruct rich, lv; cbn; rewrite ?app_nil_r; try done.
  destruct ly; cbn; [|done].
  destruct st as [sc ec [t0|] ls tf sf up]; cbn; done.
Qed.

Lemma notification_run o title message nt s :
  _send_notification o title message nt s = (Ok tt, notified o title message nt s).
Proof.
  unfold _send_notification, notified, notify_events. unfold_monad.
  cbn. destruct (notifier (self s) && enable_notifications (self s)); cbn.
  - destruct (icon_raises o); cbn; [done|].
    destruct (notify_raises o); cbn; [|done]. by rewrite with_trace_app.
  - by rewrite with_trace_nil.
Qed.

(** ** [sync_file], path by path *)

Arguments fs_mkdir : simpl never.
Arguments fs_copy2 : simpl never.
Arguments parent : simpl never.
Arguments name : simpl never.

Lemma fs_mkdir_from_Raised denied done todo f e f' :
  fs_mkdir_from denied done todo f = (Raised e, f') → is_Exception e = true.
Proof.
  revert done f. induction todo as [|c todo IH]; intros done f; simpl; [discriminate|].
  destruct (f !! (done ++ [c])) as [[]|]; [| apply IH |].
  - intros [= <- _]. by destruct todo.
  - destruct denied; [by intros [= <- _] | apply IH].
Qed.

Lemma fs_copy2_Raised fault t src dst f e f' :
  fs_copy2 fault t src dst f = (Raised e, f') → is_Exception e = true.
Proof.
  unfold fs_copy2. repeat case_match; by intros [= <- _].
Qed.

Lemma fs_sync_Raised o t p f e f' :
  fs_sync o t p f = (Raised e, f') → is_Exception e = true.
Proof.
  unfold fs_sync. destruct (fs_mkdir _ _ _) as [[[]|e1] f1] eqn:Emk.
  - apply fs_copy2_Raised.
  - intros [= <- _]. by apply fs_mkdir_from_Raised in Emk.
Qed.

Lemma target_hash_run o i p s :
  (if bool_decide (is_Some (node_at (fs s) (target p))) return M (option string)
   then calculate_file_hash (o_target o) (target p)
   else λ s1, (Ok None, s1)) (source_hashed o i p s)
  = (Ok (target_hash o (fs s) p), target_hashed o i p s).
Proof.
  unfold target_hash, target_hashed.
  destruct (bool_decide _); [|done]. by rewrite calculate_file_hash_run.
Qed.

Lemma target_hashed_fs o i p s : fs (target_hashed o i p s) = fs s.
Proof. unfold target_hashed. by destruct (bool_decide _). Qed.

Lemma target_hashed_RICH o i p s :
  RICH_AVAILABLE (target_hashed o i p s) = RICH_AVAILABLE s.
Proof. unfold target_hashed. by destruct (bool_decide _). Qed.

Lemma target_hashed_self o i p s : self (target_hashed o i p s) = self (begun i s).
Proof. unfold target_hashed. by destruct (bool_decide _). Qed.

Lemma sync_file_run o i p s :
  file_pairs (self s) !! i = Some p →
  sync_file o i s = (Ok (fst (sync_file_result o i p s)), snd (sync_file_result o i p s)).
Proof.
  intros Hp. unfold sync_file, sync_file_result, the_pair, modify_pair, modify_stats,
    path_exists, copy2, mkdir.
  unfold_monad. cbn beta.
  rewrite display_run. cbn.
  rewrite list_lookup_alter_eq, Hp. cbn.
  rewrite calculate_file_hash_run. cbn.
  destruct (hash_of (o_source o) (fs s) (source p)) as [d|e] eqn:Hsrc; cbn.
  2: { rewrite display_run. reflexivity. }
  fold (upd_pair i (set_status syncing) s). fold (begun i s).
  fold (source_hashed o i p s).
  rewrite target_hash_run. 
  destruct (decide (Some d = target_hash o (fs s) p)) as [Heq|Hne]; cbn.
  { rewrite !display_run. reflexivity. }
  rewrite ?target_hashed_fs, ?target_hashed_RICH.
  unfold fs_sync, copying. cbn. rewrite ?target_hashed_fs.
  destruct (fs_mkdir (mkdir_denied o) (parent (target p)) (fs s)) as [[[]|e1] f1] eqn:Emk; cbn.
  - destruct (fs_copy2 _ _ _ _ f1) as [[[]|e2] f2] eqn:Ecp; cbn.
    + destruct (RICH_AVAILABLE s) eqn:Hrich; cbn; rewrite notification_run; cbn;
        rewrite display_run; unfold end_copied, console_printed, copying; cbn;
        rewrite ?target_hashed_RICH, ?Hrich; reflexivity.
    + rewrite (fs_copy2_Raised _ _ _ _ _ _ _ Ecp). cbn.
      rewrite target_hashed_self. cbn. rewrite list_lookup_alter_eq, Hp. cbn.
      rewrite target_hashed_RICH.
      destruct (RICH_AVAILABLE s) eqn:Hrich; cbn; rewrite notification_run; cbn;
        rewrite display_run; unfold end_raised, console_printed, copying; cbn;
        rewrite ?target_hashed_RICH, ?Hrich; reflexivity.
  - rewrite (fs_mkdir_from_Raised _ _ _ _ _ _ Emk). cbn.
    rewrite target_hashed_self. cbn. rewrite list_lookup_alter_eq, Hp. cbn.
    rewrite target_hashed_RICH.
    destruct (RICH_AVAILABLE s) eqn:Hrich; cbn; rewrite notification_run; cbn;
      rewrite display_run; unfold end_raised, console_printed, copying; cbn;
      rewrite ?target_hashed_RICH, ?Hrich; reflexivity.
Qed.

(** ** Frames: what the sinks and the hasher leave alone *)

Lemma display_stats_sync_count s st :
  Stats.sync_count (display_stats s st) = Stats.sync_count st.
Proof. unfold display_stats. destruct (_ && _); [|done]. by destruct (Stats.start_time st). Qed.

Lemma display_stats_error_count s st :
  Stats.error_count (display_stats s st) = Stats.error_count st.
Proof. unfold display_stats. destruct (_ && _); [|done]. by destruct (Stats.start_time st). Qed.

Lemma display_stats_start_time s st :
  Stats.start_time (display_stats s st) = Stats.start_time st.
Proof.
  unfold display_stats. destruct (_ && _); [|done].
  by destruct (Stats.start_time st) eqn:E.
Qed.

Lemma display_stats_last_sync s st :
  Stats.last_sync (display_stats s st) = Stats.last_sync st.
Proof. unfold display_stats. destruct (_ && _); [|done]. by destruct (Stats.start_time st). Qed.

Lemma display_stats_total_files s st :
  Stats.total_files (display_stats s st) = Stats.total_files st.
Proof. unfold display_stats. destruct (_ && _); [|done]. by destruct (Stats.start_time st). Qed.

Lemma notifications_app (a b : list Event) :
  notifications (a ++ b) = notifications a ++ notifications b.
Proof. apply List.filter_app. Qed.




Lemma target_hashed_clock o i p s : (clock s <= clock (target_hashed o i p s))%Z.
Proof.
  unfold target_hashed, source_hashed, begun, later. destruct (bool_decide _); cbn; lia.
Qed.


(** ** SHA-256 on the test vectors of FIPS 180-4 *)

Example sha256_constants :
  length SHA256.K = 64%nat ∧ nth 0 SHA256.K 0%N = 0x428a2f98%N ∧
  nth 63 SHA256.K 0%N = 0xc67178f2%N ∧
  nth 0 SHA256.H0 0%N = 0x6a09e667%N ∧ nth 7 SHA256.H0 0%N = 0x5be0cd19%N.
Proof. vm_compute. done. Qed.

Example sha256_empty :
  SHA256.hexdigest [] = "e3b0c44298fc1c149afbf4c8996fb92427ae41e4649b934ca495991b7852b855".
Proof. vm_compute. reflexivity. Qed.

Example sha256_abc :
  SHA256.hexdigest (list_byte_of_string "abc")
  = "ba7816bf8f01cfea414140de5dae2223b00361a396177a9cb410ff61f20015ad".
Proof. vm_compute. reflexivity. Qed.

Example sha256_two_blocks :
  SHA256.hexdigest
    (list_byte_of_string "abcdbcdecdefdefgefghfghighijhijkijkljklmklmnlmnomnopnopq")
  = "248d6a61d20638b8e5c026930c3e6039a33ce45964ff2167f6ecedd419db06c1".
Proof. vm_compute. reflexivity. Qed.

(** ** The hasher: [calculate_file_hash] *)

Lemma foldl_update (chunks : list (list byte)) (h : hasher) :
  foldl update h chunks = Hasher (fed h ++ concat chunks).
Proof.
  revert h. induction chunks as [|ch chunks IH]; intros h; simpl.
  - rewrite app_nil_r. by destruct h.
  - rewrite IH. simpl. by rewrite app_assoc.
Qed.

Lemma chunked_concat fuel size rest :
  (0 < size)%nat → (length rest < fuel)%nat → concat (chunked fuel size rest) = rest.
Proof.
  intros Hsize. revert rest. induction fuel as [|fuel IH]; intros rest Hlen; [lia|]. simpl.
  destruct (take size rest) as [|b chunk] eqn:Etake.
  - destruct rest as [|b rest]; [done|]. destruct size; [lia | discriminate].
  - rewrite concat_cons, IH.
    + rewrite <- Etake. apply take_drop.
    + rewrite length_drop. destruct rest; [by rewrite take_nil in Etake|]. simpl in *. lia.
Qed.

Lemma chunked_lookup fuel size rest j ch :
  chunked fuel size rest !! j = Some ch → ch = take size (drop (j * size) rest) ∧ ch ≠ [].
Proof.
  revert rest j. induction fuel as [|fuel IH]; intros rest j; simpl; [done|].
  destruct (take size rest) as [|b chunk] eqn:Etake; [done|].
  destruct j as [|j]; intros Hj; simpl in Hj.
  - injection Hj as <-. rewrite Nat.mul_0_l, drop_0. by rewrite Etake.
  - apply IH in Hj as [-> Hne]. split; [|done].
    by rewrite drop_drop.
Qed.

Lemma read_loop_chunked fuel size p k rest h :
  (0 < size)%nat → (length rest < fuel)%nat →
  read_loop fuel size p None k rest h = Ok (foldl update h (chunked fuel size rest)).
Proof.
  intros Hsize Hlen. rewrite read_loop_total, foldl_update, chunked_concat by done. done.
Qed.

Lemma read_loop_error fuel size p e k rest h :
  (0 < size)%nat → (length rest < fuel)%nat → (k ≤ e)%nat →
  read_loop fuel size p (Some e) k rest h
  = if decide (e - k ≤ length (chunked fuel size rest))%nat
    then Raised (OSError p) else Ok (Hasher (fed h ++ rest)).
Proof.
  intros Hsize. revert k rest h.
  induction fuel as [|fuel IH]; intros k rest h Hlen Hk; [lia|].
  unfold read_loop; fold read_loop. simpl chunked.
  destruct (decide (Some e = Some k)) as [[= ->]|Hne].
  { rewrite decide_True by lia. done. }
  assert (k < e)%nat by (assert (e ≠ k) by congruence; lia).
  destruct (take size rest) as [|b chunk] eqn:Etake.
  - rewrite decide_False by (simpl; lia).
    destruct rest as [|b rest]; [rewrite app_nil_r; by destruct h|].
    destruct size; [lia | discriminate].
  - rewrite IH.
    + simpl length. destruct (decide (e - S k ≤ _)%nat), (decide (e - k ≤ _)%nat); try lia; [done|].
      simpl. rewrite <- Etake, <- app_assoc. by rewrite take_drop.
    + rewrite length_drop. destruct rest; [by rewrite take_nil in Etake|]. simpl in *. lia.
    + lia.
Qed.

Lemma hash_of_reads_through o f p :
  to_option (hash_of o f p)
  = match node_at f p with
    | Some (File c _) => if reads_through o c then Some (SHA256.hexdigest c) else None
    | _ => None
    end.
Proof.
  unfold hash_of, reads_through. destruct (node_at f p) as [[c m|]|]; try done.
  destruct (open_denied o); [done|]. simpl negb. rewrite andb_true_l.
  destruct (read_error_at o) as [e|].
  - rewrite read_loop_error by lia. rewrite Nat.sub_0_r.
    destruct (decide (e ≤ _)%nat).
    + by rewrite bool_decide_eq_false_2 by lia.
    + by rewrite bool_decide_eq_true_2 by lia.
  - by rewrite read_loop_total by lia.
Qed.

(** ** Claim C6: what the hasher returns *)

(** C6, counterexample: a file that does not exist and a read error on a
    file that does are different failures ([FileNotFoundError],
    [OSError]); the hasher returns the same value, [None], for both, and
    the exception goes to the log only. *)
Lemma calculate_file_hash_conflates_failures :
  fst (calculate_file_hash Ex.reads_well Ex.gone_txt (Ex.state false Ex.fs_fresh)) = Ok None ∧
  trace (snd (calculate_file_hash Ex.reads_well Ex.gone_txt (Ex.state false Ex.fs_fresh)))
    = [Log EXCEPTION (FailedToHash Ex.gone_txt (FileNotFoundError Ex.gone_txt))] ∧
  fst (calculate_file_hash Ex.io_error Ex.a_txt (Ex.state false Ex.fs_fresh)) = Ok None ∧
  trace (snd (calculate_file_hash Ex.io_error Ex.a_txt (Ex.state false Ex.fs_fresh)))
    = [Log EXCEPTION (FailedToHash Ex.a_txt (OSError Ex.a_txt))].
Proof. rewrite !calculate_file_hash_run. vm_compute. done. Qed.

(** C6, amended: [calculate_file_hash] never raises and changes neither
    the file system nor the monitor. For a regular file that opens and
    reads to the end it returns the SHA-256 digest of the content in
    hexadecimal, the loop having fed the hasher the content in chunks of
    4096 bytes, the last one maybe shorter. For every failure (no such
    file, a directory, [open] refused, a failing read) it returns the one
    value [None] and logs the exception: the kinds of failure are not told
    apart in what it returns. *)
Theorem calculate_file_hash_spec o p s :
  ∃ r s',
    calculate_file_hash o p s = (Ok r, s') ∧ fs s' = fs s ∧ self s' = self s ∧
    r = match node_at (fs s) p with
        | Some (File c _) => if reads_through o c then Some (SHA256.hexdigest c) else None
        | _ => None
        end ∧
    (∀ c m, node_at (fs s) p = Some (File c m) →
       read_loop (S (length c)) 4096 p None 0 c sha256_new
         = Ok (foldl update sha256_new (chunked (S (length c)) 4096 c)) ∧
       hexdigest (foldl update sha256_new (chunked (S (length c)) 4096 c)) = SHA256.hexdigest c ∧
       concat (chunked (S (length c)) 4096 c) = c ∧
       ∀ j ch, chunked (S (length c)) 4096 c !! j = Some ch →
               ch = take 4096 (drop (j * 4096) c) ∧ ch ≠ []) ∧
    (r = None →
       ∃ e, is_Exception e = true ∧ trace s' = trace s ++ [Log EXCEPTION (FailedToHash p e)]).
Proof.
  eexists _, _. rewrite calculate_file_hash_run. split_and!; try done.
  - apply hash_of_reads_through.
  - intros c m _. split_and!.
    + apply read_loop_chunked; lia.
    + rewrite foldl_update, chunked_concat by lia. reflexivity.
    + apply chunked_concat; lia.
    + apply chunked_lookup.
  - unfold hashed. destruct (hash_of o (fs s) p) as [d|e] eqn:E; [discriminate|].
    intros _. exists e. split; [by eapply hash_of_Raised|done].
Qed.

(** ** Claim C1: a source that cannot be hashed *)

(** C1, the code as it is: when the hasher returns [None] for the source,
    [sync_file] returns [False], leaves the pair in status [error] with its
    error count one higher and touches no file; [stats['error_count']]
    stays as it was, the early [return False] coming before the increment
    that only the [except] branch makes. *)
Theorem sync_file_hash_failure o i p s :
  file_pairs (self s) !! i = Some p →
  fst (calculate_file_hash (o_source o) (source p) s) = Ok None →
  ∃ s' p',
    sync_file o i s = (Ok false, s') ∧
    file_pairs (self s') !! i = Some p' ∧
    status p' = error ∧ error_count p' = (error_count p + 1)%N ∧
    fs s' = fs s ∧
    Stats.error_count (stats (self s')) = Stats.error_count (stats (self s)).
Proof.
  intros Hp Hhash. rewrite calculate_file_hash_run in Hhash. cbn in Hhash.
  destruct (hash_of (o_source o) (fs s) (source p)) as [d|e] eqn:E; [discriminate|].
  rewrite (sync_file_run _ _ _ _ Hp). unfold sync_file_result. rewrite E. cbn [fst snd].
  eexists _, _. split; [done|].
  unfold end_hash_failed, source_hashed, begun. cbn.
  rewrite !list_lookup_alter_eq, Hp. cbn.
  split_and!; try done. by rewrite !display_stats_error_count.
Qed.

Lemma sync_file_hash_failure_witness :
  ∃ s' p',
    sync_file Ex.unreadable 0 (Ex.state false Ex.fs_fresh) = (Ok false, s') ∧
    file_pairs (self s') !! 0%nat = Some p' ∧
    status p' = error ∧ error_count p' = 1%N ∧
    fs s' = Ex.fs_fresh ∧
    Stats.error_count (stats (self s')) = 0%N.
Proof.
  apply (sync_file_hash_failure Ex.unreadable 0 (new_FilePair Ex.a_txt Ex.b_txt)
           (Ex.state false Ex.fs_fresh)); [reflexivity | vm_compute; reflexivity].
Defined.

(** ** Claim C4: the no-op path *)


Lemma calculate_file_hash_None o p s :
  fst (calculate_file_hash o p s) = Ok None ↔ ∃ e, hash_of o (fs s) p = Raised e.
Proof.
  rewrite calculate_file_hash_run. cbn.
  destruct (hash_of o (fs s) p); cbn; split; try congruence.
  - by intros [e [=]].
  - by eexists.
Qed.


Lemma target_hash_Some o f p d :
  hash_of (o_target o) f (target p) = Ok d → target_hash o f p = Some d.
Proof.
  intros H. unfold target_hash. rewrite H.
  apply hash_of_Ok in H as (c & m & -> & _). by rewrite bool_decide_eq_true_2.
Qed.

Lemma sync_file_noop_run o i p s d :
  file_pairs (self s) !! i = Some p →
  hash_of (o_source o) (fs s) (source p) = Ok d →
  hash_of (o_target o) (fs s) (target p) = Ok d →
  sync_file o i s = (Ok true, end_noop o i p s).
Proof.
  intros Hp Hsrc Htgt. rewrite (sync_file_run _ _ _ _ Hp). unfold sync_file_result.
  rewrite Hsrc, (target_hash_Some _ _ _ _ Htgt). by rewrite decide_True.
Qed.

Lemma end_noop_fs o i p s : fs (end_noop o i p s) = fs s.
Proof. unfold end_noop. cbn. apply target_hashed_fs. Qed.

Lemma end_noop_pair o i p s :
  file_pairs (self s) !! i = Some p →
  file_pairs (self (end_noop o i p s)) !! i = Some (set_status synced p).
Proof.
  intros Hp. unfold end_noop. cbn. rewrite target_hashed_self. cbn.
  by rewrite !list_lookup_alter_eq, Hp.
Qed.

Lemma end_noop_sync_count o i p s :
  Stats.sync_count (stats (self (end_noop o i p s))) = Stats.sync_count (stats (self s)).
Proof.
  unfold end_noop. cbn. rewrite !display_stats_sync_count, target_hashed_self. cbn.
  by rewrite display_stats_sync_count.
Qed.




(** ** Claim C3: the copy path *)


Lemma node_at_File f q c m : node_at f q = Some (File c m) → q ≠ [] ∧ f !! q = Some (File c m).
Proof. by destruct q. Qed.

Lemma node_at_lookup (f : FS) q : q ≠ [] → node_at f q = f !! q.
Proof. by destruct q. Qed.


Lemma length_parent (q : Path) : q ≠ [] → (length (parent q) < length q)%nat.
Proof.
  intros Hq. unfold parent. destruct (exists_last Hq) as (q' & x & ->).
  rewrite removelast_last, length_app. simpl. lia.
Qed.


Lemma copying_clock o i p s : (clock s <= clock (copying o i p s))%Z.
Proof.
  unfold copying, later, logged. cbn. pose proof (target_hashed_clock o i p s). lia.
Qed.

Lemma console_printed_self ok m s : self (console_printed ok m s) = self s.
Proof. unfold console_printed. by destruct (RICH_AVAILABLE s). Qed.

Lemma console_printed_clock ok m s : clock (console_printed ok m s) = clock s.
Proof. unfold console_printed. by destruct (RICH_AVAILABLE s). Qed.

Lemma console_printed_fs ok m s : fs (console_printed ok m s) = fs s.
Proof. unfold console_printed. by destruct (RICH_AVAILABLE s). Qed.

Lemma console_printed_RICH ok m s :
  RICH_AVAILABLE (console_printed ok m s) = RICH_AVAILABLE s.
Proof. unfold console_printed. by destruct (RICH_AVAILABLE s) eqn:E. Qed.

Lemma end_copied_clock o i p d f' s :
  clock (end_copied o i p d f' s) = clock (copying o i p s).
Proof. unfold end_copied. cbn. by rewrite console_printed_clock. Qed.

Lemma end_copied_fs o i p d f' s : fs (end_copied o i p d f' s) = f'.
Proof. unfold end_copied. cbn. by rewrite console_printed_fs. Qed.

Lemma end_copied_pair o i p d f' s :
  file_pairs (self s) !! i = Some p →
  file_pairs (self (end_copied o i p d f' s)) !! i
  = Some (set_status synced
            (set_last_sync (Some (clock (end_copied o i p d f' s)))
               (set_last_hash (Some d) p))).
Proof.
  intros Hp. rewrite end_copied_clock. unfold end_copied. cbn.
  rewrite console_printed_self. cbn. rewrite target_hashed_self. cbn.
  by rewrite !list_lookup_alter_eq, Hp.
Qed.





(** ** The notifications of a call *)

Arguments copying : simpl never.
Arguments console_printed : simpl never.
Arguments target_hashed : simpl never.

Lemma notifications_notify_events o m title message nt :
  notifications (notify_events o m title message nt)
  = if delivered o m then [Notify nt title message] else [].
Proof.
  unfold notify_events, delivered.
  destruct (notifier m && enable_notifications m); [|done].
  destruct (icon_raises o); [done|]. by destruct (notify_raises o).
Qed.



Lemma copying_self o i p s : self (copying o i p s) = self (begun i s).
Proof. unfold copying. cbn. apply target_hashed_self. Qed.






(** ** What a call leaves alone *)

Lemma copying_RICH o i p s : RICH_AVAILABLE (copying o i p s) = RICH_AVAILABLE s.
Proof. unfold copying. cbn. apply target_hashed_RICH. Qed.

Ltac frame_fields :=
  cbn; rewrite ?console_printed_self, ?console_printed_RICH, ?console_printed_clock; cbn;
  rewrite ?copying_self, ?copying_RICH, ?target_hashed_self, ?target_hashed_RICH; cbn;
  rewrite ?display_stats_start_time, ?display_stats_total_files,
    ?length_alter; cbn;
  rewrite ?display_stats_start_time, ?display_stats_total_files; try done.

Lemma end_hash_failed_frame o i p s : frame i s (end_hash_failed o i p s).
Proof.
  unfold frame, end_hash_failed, source_hashed, begun. split_and!; frame_fields.
  - intros j Hj. by rewrite !list_lookup_alter_ne.
  - intros p0 Hp0. rewrite !list_lookup_alter_eq, Hp0. by eexists.
  - unfold later. cbn. lia.
Qed.

Lemma end_noop_frame o i p s : frame i s (end_noop o i p s).
Proof.
  unfold frame, end_noop. split_and!; frame_fields.
  - intros j Hj. by rewrite !list_lookup_alter_ne.
  - intros p0 Hp0. rewrite !list_lookup_alter_eq, Hp0. by eexists.
  - apply target_hashed_clock.
Qed.

Lemma end_copied_frame o i p d f' s : frame i s (end_copied o i p d f' s).
Proof.
  unfold frame, end_copied. split_and!; frame_fields.
  - intros j Hj. by rewrite !list_lookup_alter_ne.
  - intros p0 Hp0. rewrite !list_lookup_alter_eq, Hp0. by eexists.
  - apply copying_clock.
Qed.

Lemma end_raised_frame o i p e f' s : frame i s (end_raised o i p e f' s).
Proof.
  unfold frame, end_raised. split_and!; frame_fields.
  - intros j Hj. by rewrite !list_lookup_alter_ne.
  - intros p0 Hp0. rewrite !list_lookup_alter_eq, Hp0. by eexists.
  - apply copying_clock.
Qed.

Lemma sync_file_result_frame o i p s : frame i s (snd (sync_file_result o i p s)).
Proof.
  unfold sync_file_result. destruct (hash_of _ _ _) as [d|e].
  - destruct (decide _); [apply end_noop_frame|].
    destruct (fs_sync _ _ _ _) as [[[]|e] f']; [apply end_copied_frame | apply end_raised_frame].
  - apply end_hash_failed_frame.
Qed.

(** ** The failing paths *)

Lemma end_hash_failed_pair o i p s :
  file_pairs (self s) !! i = Some p →
  file_pairs (self (end_hash_failed o i p s)) !! i = Some (incr_error_count (set_status error p)).
Proof.
  intros Hp. unfold end_hash_failed, source_hashed, begun. cbn.
  by rewrite !list_lookup_alter_eq, Hp.
Qed.

Lemma end_raised_pair o i p e f' s :
  file_pairs (self s) !! i = Some p →
  file_pairs (self (end_raised o i p e f' s)) !! i = Some (incr_error_count (set_status error p)).
Proof.
  intros Hp. unfold end_raised. cbn. rewrite console_printed_self. cbn.
  rewrite copying_self. cbn. by rewrite !list_lookup_alter_eq, Hp.
Qed.

Lemma display_stats_off s st :
  display_active s && layout (self s) = false → display_stats s st = st.
Proof. unfold display_stats. by intros ->. Qed.

(** The statistics after a failure, up to what the display recomputes. *)
Lemma end_hash_failed_stats o i p s :
  ∃ st, stats (self (end_hash_failed o i p s)) = st ∧
    Stats.sync_count st = Stats.sync_count (stats (self s)) ∧
    Stats.error_count st = Stats.error_count (stats (self s)) ∧
    Stats.last_sync st = Stats.last_sync (stats (self s)) ∧
    (display_active s && layout (self s) = false → st = stats (self s)).
Proof.
  eexists. split; [done|]. unfold end_hash_failed, source_hashed, begun. cbn.
  rewrite !display_stats_sync_count, !display_stats_error_count, !display_stats_last_sync.
  split_and!; try done.
  intros Hoff. by rewrite !display_stats_off by exact Hoff.
Qed.

Lemma end_raised_stats o i p e f' s :
  ∃ st, stats (self (end_raised o i p e f' s)) = st ∧
    Stats.sync_count st = Stats.sync_count (stats (self s)) ∧
    Stats.error_count st = (Stats.error_count (stats (self s)) + 1)%N ∧
    Stats.last_sync st = Stats.last_sync (stats (self s)) ∧
    (display_active s && layout (self s) = false →
     st = incr_stats_error_count (stats (self s))).
Proof.
  eexists. split; [done|]. unfold end_raised. cbn.
  rewrite !display_stats_sync_count, !display_stats_error_count, !display_stats_last_sync.
  rewrite console_printed_self. cbn. rewrite copying_self. cbn.
  rewrite !display_stats_sync_count, !display_stats_error_count, !display_stats_last_sync.
  split_and!; try done.
  intros Hoff. rewrite (display_stats_off (upd_pair i (set_status syncing) s)) by exact Hoff.
  apply display_stats_off. unfold display_active. cbn.
  rewrite console_printed_RICH, console_printed_self. cbn. by rewrite copying_RICH, copying_self.
Qed.

Lemma end_hash_failed_last_update o i p s :
  last_update (self (end_hash_failed o i p s)) = last_update (self s).
Proof. done. Qed.

Lemma end_raised_last_update o i p e f' s :
  last_update (self (end_raised o i p e f' s)) = last_update (self s).
Proof. unfold end_raised. cbn. rewrite console_printed_self. cbn. by rewrite copying_self. Qed.

(** What a call returns is [false] on the two failing paths only. *)
Lemma sync_file_result_false o i p s :
  fst (sync_file_result o i p s) = false →
  (∃ e, hash_of (o_source o) (fs s) (source p) = Raised e ∧
        snd (sync_file_result o i p s) = end_hash_failed o i p s) ∨
  (∃ d e f', hash_of (o_source o) (fs s) (source p) = Ok d ∧
             Some d ≠ target_hash o (fs s) p ∧
             fs_sync o (clock (copying o i p s)) p (fs s) = (Raised e, f') ∧
             snd (sync_file_result o i p s) = end_raised o i p e f' s).
Proof.
  unfold sync_file_result. destruct (hash_of _ _ _) as [d|e] eqn:Hsrc.
  - destruct (decide _) as [|Hne]; [done|].
    destruct (fs_sync _ _ _ _) as [[[]|e] f'] eqn:Hrun; [done|].
    intros _. right. by exists d, e, f'.
  - intros _. left. by exists e.
Qed.

(** ** The last refresh of the display *)



(** ** Claim C5: what a call tells the sinks *)




(** ** Claim C8: failures stay inside [sync_file] *)



(** ** Claim C10: what a failing call leaves *)

(** C10, counterexample: with the live display running, a failing call
    rewrites [stats['uptime']] and [stats['synced_files']], which are
    neither the status nor an error count: the refresh in the [finally]
    clause recomputes them. Here the first call copies and leaves one pair
    counted as synced; the second fails and leaves none, and a later
    uptime. *)
Lemma sync_file_failure_recomputes_stats :
  Stats.synced_files (stats (self (snd (sync_file Ex.calm 0 (Ex.state true Ex.fs_fresh)))))
    = 1%nat ∧
  Stats.uptime (stats (self (snd (sync_file Ex.calm 0 (Ex.state true Ex.fs_fresh)))))
    = 110%Z ∧
  fst (sync_file Ex.unreadable 0 (snd (sync_file Ex.calm 0 (Ex.state true Ex.fs_fresh))))
    = Ok false ∧
  Stats.synced_files
    (stats (self (snd (sync_file Ex.unreadable 0
                         (snd (sync_file Ex.calm 0 (Ex.state true Ex.fs_fresh)))))))
    = 0%nat ∧
  Stats.uptime
    (stats (self (snd (sync_file Ex.unreadable 0
                         (snd (sync_file Ex.calm 0 (Ex.state true Ex.fs_fresh)))))))
    = 113%Z.
Proof. vm_compute. done. Qed.

(** C10, amended: when [sync_file] returns [False], the pair is in status
    [error] with its error count one higher and is otherwise as before
    ([source], [target], [last_hash], [last_sync]); the other pairs and the
    configuration of the monitor are as before; of the statistics,
    [sync_count], [last_sync], [start_time] and [total_files] are as
    before and [error_count] is as before (source not hashed) or one
    higher ([mkdir] or [copy2] raised). Nothing else of the statistics
    changes unless the live display runs, which recomputes [uptime] and
    [synced_files]. *)
Theorem sync_file_failure_frame o i p s s' :
  file_pairs (self s) !! i = Some p →
  sync_file o i s = (Ok false, s') →
  file_pairs (self s') !! i = Some (incr_error_count (set_status error p)) ∧
  (∀ j, j ≠ i → file_pairs (self s') !! j = file_pairs (self s) !! j) ∧
  Stats.sync_count (stats (self s')) = Stats.sync_count (stats (self s)) ∧
  Stats.last_sync (stats (self s')) = Stats.last_sync (stats (self s)) ∧
  Stats.start_time (stats (self s')) = Stats.start_time (stats (self s)) ∧
  Stats.total_files (stats (self s')) = Stats.total_files (stats (self s)) ∧
  (Stats.error_count (stats (self s')) = Stats.error_count (stats (self s)) ∨
   Stats.error_count (stats (self s')) = (Stats.error_count (stats (self s)) + 1)%N) ∧
  last_update (self s') = last_update (self s) ∧
  check_interval (self s') = check_interval (self s) ∧
  enable_notifications (self s') = enable_notifications (self s) ∧
  running (self s') = running (self s) ∧
  (display_active s && layout (self s) = false →
   stats (self s') = stats (self s) ∨
   stats (self s') = incr_stats_error_count (stats (self s))).
Proof.
  intros Hp. rewrite (sync_file_run _ _ _ _ Hp). intros [= Hfalse <-].
  apply sync_file_result_false in Hfalse
    as [(e & Hsrc & ->)|(d & e & f' & Hsrc & Hne & Hsync & ->)].
  - destruct (end_hash_failed_frame o i p s)
      as (Hci & Hen & Hrun & _ & _ & _ & _ & Hst & Htf & _ & Hothers & _).
    destruct (end_hash_failed_stats o i p s) as (st & <- & Hsc & Hec & Hls & Hoff).
    split_and!;
      [by apply end_hash_failed_pair | done | done | done | done | done | by left
      | done | done | done | done | intros H; left; by apply Hoff].
  - destruct (end_raised_frame o i p e f' s)
      as (Hci & Hen & Hrun & _ & _ & _ & _ & Hst & Htf & _ & Hothers & _).
    destruct (end_raised_stats o i p e f' s) as (st & <- & Hsc & Hec & Hls & Hoff).
    split_and!;
      [by apply end_raised_pair | done | done | done | done | done | by right
      | apply end_raised_last_update | done | done | done | intros H; right; by apply Hoff].
Qed.

Lemma sync_file_failure_frame_witness :
  file_pairs (self (snd (sync_file Ex.disk_full 0 (Ex.state false Ex.fs_fresh)))) !! 0%nat
    = Some (incr_error_count (set_status error (new_FilePair Ex.a_txt Ex.b_txt))) ∧
  Stats.error_count (stats (self (snd (sync_file Ex.disk_full 0 (Ex.state false Ex.fs_fresh)))))
    = 1%N.
Proof.
  pose proof (sync_file_failure_frame Ex.disk_full 0 (new_FilePair Ex.a_txt Ex.b_txt)
                (Ex.state false Ex.fs_fresh)
                (snd (sync_file Ex.disk_full 0 (Ex.state false Ex.fs_fresh)))) as H.
  destruct H as (Hpair & _); [reflexivity | vm_compute; reflexivity |].
  split; [exact Hpair | vm_compute; reflexivity].
Defined.

(** ** Claim C7: the validation before the run *)







(** ** Claim C9: the sleep between two passes *)








(** ** Claim C2: what [synced] means *)

Lemma fs_mkdir_from_inv denied done todo f f1 :
  fs_mkdir_from denied done todo f = (Ok tt, f1) →
  (∀ q n, f !! q = Some n → f1 !! q = Some n) ∧
  (∀ q, f1 !! q = f !! q ∨
        (f1 !! q = Some Dir ∧ ∃ k, (0 < k)%nat ∧ q = done ++ take k todo)).
Proof.
  revert done f. induction todo as [|c todo IH]; intros done f; simpl.
  { intros [= <-]. split; [done | by left]. }
  assert (Hpre : ∀ k, done ++ take (S k) (c :: todo) = (done ++ [c]) ++ take k todo).
  { intros k. by rewrite <- app_assoc. }
  destruct (f !! (done ++ [c])) as [[c0 m0|]|] eqn:Hq; [done| |].
  - intros [Hkeep Hnew]%IH. split; [done|].
    intros q. destruct (Hnew q) as [?|(Hdir & k & Hk & ->)]; [by left|].
    right. split; [done|]. exists (S k). split; [lia|]. by rewrite Hpre.
  - destruct denied; [done|]. intros [Hkeep Hnew]%IH. split.
    + intros q n Hqn. apply Hkeep. rewrite lookup_insert_ne; [done|]. congruence.
    + intros q. destruct (decide (q = done ++ [c])) as [->|Hne].
      * right. split; [apply Hkeep, lookup_insert_eq|].
        exists 1%nat. split; [lia|]. reflexivity.
      * destruct (Hnew q) as [Heq|(Hdir & k & Hk & ->)].
        -- left. by rewrite Heq, lookup_insert_ne.
        -- right. split; [done|]. exists (S k). split; [lia|]. by rewrite Hpre.
Qed.

Lemma fs_copy2_inv fault t src dst f f' :
  fs_copy2 fault t src dst f = (Ok tt, f') →
  ∃ c m, node_at f src = Some (File c m) ∧ src ≠ copy_destination f src dst ∧
         f' = <[copy_destination f src dst := File c m]> f.
Proof.
  unfold fs_copy2. destruct (decide _) as [|Hne]; [done|].
  destruct (node_at f src) as [[c m|]|]; try done.
  intros H. exists c, m. split_and!; [done..|].
  repeat case_match; by simplify_eq.
Qed.

(** When [mkdir] and [copy2] do not raise and the target is not a
    directory, the target ends as a copy of the source, and the source is
    as it was. *)
Lemma fs_sync_inv o t p f f' :
  fs_sync o t p f = (Ok tt, f') → node_at f (target p) ≠ Some Dir →
  ∃ c m, node_at f (source p) = Some (File c m) ∧
         node_at f' (source p) = Some (File c m) ∧
         node_at f' (target p) = Some (File c m).
Proof.
  unfold fs_sync, fs_mkdir. intros Hrun Htgt.
  destruct (fs_mkdir_from _ _ _ _) as [[[]|e] f1] eqn:Hmk; [|done].
  apply fs_mkdir_from_inv in Hmk as [Hkeep Hnew].
  apply fs_copy2_inv in Hrun as (c & m & Hsrc & Hne & ->).
  assert (Htne : target p ≠ []) by (intros E; apply Htgt; by rewrite E).
  pose proof (length_parent _ Htne) as Hlen.
  assert (Htgt1 : f1 !! target p = f !! target p).
  { destruct (Hnew (target p)) as [?|(_ & k & _ & E)]; [done|].
    exfalso. simpl in E. apply (f_equal length) in E. rewrite length_take in E. lia. }
  assert (Hdst : copy_destination f1 (source p) (target p) = target p).
  { unfold copy_destination. rewrite node_at_lookup, Htgt1, <- node_at_lookup by done.
    by destruct (node_at f (target p)) as [[]|]. }
  rewrite Hdst in *. apply node_at_File in Hsrc as [Hsne Hsrc].
  exists c, m. rewrite !node_at_lookup by done. split_and!.
  - destruct (Hnew (source p)) as [<-|(Hdir & _)]; [done|]. congruence.
  - by rewrite lookup_insert_ne.
  - apply lookup_insert_eq.
Qed.

Lemma sync_file_result_pair o i p s :
  file_pairs (self s) !! i = Some p →
  ∃ p',
    file_pairs (self (snd (sync_file_result o i p s))) !! i = Some p' ∧
    last_hash p' = from_option Some (last_hash p) (copied o i p s) ∧
    (status p' = synced → fst (sync_file_result o i p s) = true).
Proof.
  intros Hp. unfold sync_file_result, copied.
  destruct (hash_of _ _ _) as [d|e]; [destruct (decide _); [|
    destruct (fs_sync _ _ _ _) as [[[]|e] f']]|]; cbn [fst snd].
  - rewrite (end_noop_pair _ _ _ _ Hp). by eexists.
  - rewrite (end_copied_pair _ _ _ _ _ _ Hp). by eexists.
  - rewrite (end_raised_pair _ _ _ _ _ _ Hp). by eexists.
  - rewrite (end_hash_failed_pair _ _ _ _ Hp). by eexists.
Qed.

(** In every state of a history, [last_hash] is the digest of the source
    at the last successful copy. *)
Lemma history_last_hash i s g :
  history i s g → ∃ p, file_pairs (self s) !! i = Some p ∧ last_hash p = g.
Proof.
  induction 1 as [s p Hp Hnone|s g f t _ IH|s g o j p _ (pi & Hpi & Hg) Hp].
  - by exists p.
  - done.
  - rewrite (sync_file_run _ _ _ _ Hp). cbn [snd]. destruct (decide (j = i)) as [->|Hne].
    + assert (pi = p) as -> by congruence.
      destruct (sync_file_result_pair o i p s Hp) as (p' & Hp' & Hlast & _).
      exists p'. by rewrite Hlast, Hg.
    + exists pi. split; [|done].
      destruct (sync_file_result_frame o j p s) as (_ & _ & _ & _ & _ & _ & _ & _ & _ & _ & Ho & _).
      rewrite Ho; [done|]. congruence.
Qed.

(** After a call that returned [True], source and target are files with
    the same digest, provided the target was not a directory. *)
Lemma synced_files_agree o i p s :
  fst (sync_file_result o i p s) = true →
  node_at (fs s) (target p) ≠ Some Dir →
  ∃ c m c' m',
    node_at (fs (snd (sync_file_result o i p s))) (source p) = Some (File c m) ∧
    node_at (fs (snd (sync_file_result o i p s))) (target p) = Some (File c' m') ∧
    SHA256.hexdigest c' = SHA256.hexdigest c ∧
    (∀ d, copied o i p s = Some d → d = SHA256.hexdigest c).
Proof.
  unfold sync_file_result, copied.
  destruct (hash_of _ _ _) as [d|e] eqn:Hsrc; [destruct (decide _) as [Heq|Hne]; [|
    destruct (fs_sync _ _ _ _) as [[[]|e] f'] eqn:Hrun]|]; cbn [fst snd]; try done;
    intros _ Htgt.
  - rewrite end_noop_fs.
    destruct (hash_of_Ok _ _ _ _ Hsrc) as (c & m & Hc & _ & Hd).
    unfold target_hash in Heq. destruct (bool_decide _); [|done].
    destruct (hash_of (o_target o) (fs s) (target p)) as [d'|] eqn:Htg; [|done].
    injection Heq as <-. destruct (hash_of_Ok _ _ _ _ Htg) as (c' & m' & Hc' & _ & Hd').
    exists c, m, c', m'. split_and!; [done | done | congruence | done].
  - rewrite end_copied_fs.
    destruct (fs_sync_inv _ _ _ _ _ Hrun Htgt) as (c & m & Hc & Hs' & Ht').
    destruct (hash_of_Ok _ _ _ _ Hsrc) as (c0 & m0 & Hc0 & _ & Hd).
    exists c, m, c, m. split_and!; [done..|]. intros d' [= <-]. congruence.
Qed.

(** C2, counterexample: source and target hold the same bytes when the
    monitor starts; the first call takes the no-op path and leaves the
    pair [synced] with no [last_hash] at all, while the target exists and
    has a digest. *)
Lemma synced_without_last_hash :
  file_pairs (self (snd (sync_file Ex.calm 0 (Ex.state false Ex.fs_same)))) !! 0%nat
    = Some (set_status synced (new_FilePair Ex.a_txt Ex.b_txt)) ∧
  last_hash (set_status synced (new_FilePair Ex.a_txt Ex.b_txt)) = None ∧
  fst (calculate_file_hash Ex.reads_well Ex.b_txt
         (snd (sync_file Ex.calm 0 (Ex.state false Ex.fs_same))))
    = Ok (Some "3bfc269594ef649228e9a74bab00f042efc91d5acc6fbee31a382e80d42388fe").
Proof. vm_compute. done. Qed.

(** C2, amended: in every state a monitor reaches by calls of [sync_file]
    (on any of its pairs, the files changing in between), [last_hash] of a
    pair is the digest its source had at the last successful copy of that
    pair, and [None] as long as there was none, whatever the status. A
    call that leaves the pair [synced], its target not being a directory,
    leaves source and target as files with the same digest; that digest is
    [last_hash] when the call copied, and need not be when it took the
    no-op path. *)
Theorem synced_invariant i s g o p :
  history i s g → file_pairs (self s) !! i = Some p →
  last_hash p = g ∧
  ∃ p',
    file_pairs (self (snd (sync_file o i s))) !! i = Some p' ∧
    last_hash p' = from_option Some g (copied o i p s) ∧
    history i (snd (sync_file o i s)) (last_hash p') ∧
    (status p' = synced → node_at (fs s) (target p) ≠ Some Dir →
     ∃ c m c' m',
       node_at (fs (snd (sync_file o i s))) (source p) = Some (File c m) ∧
       node_at (fs (snd (sync_file o i s))) (target p) = Some (File c' m') ∧
       SHA256.hexdigest c' = SHA256.hexdigest c ∧
       (∀ d, copied o i p s = Some d → last_hash p' = Some (SHA256.hexdigest c))).
Proof.
  intros Hhist Hp.
  destruct (history_last_hash _ _ _ Hhist) as (p0 & Hp0 & Hg).
  assert (p0 = p) as -> by congruence. split; [done|].
  pose proof (history_sync i s g o i p Hhist Hp) as Hnext.
  rewrite decide_True in Hnext by done. revert Hnext.
  rewrite (sync_file_run _ _ _ _ Hp). cbn [snd]. intros Hnext.
  destruct (sync_file_result_pair o i p s Hp) as (p' & Hp' & Hlast & Hsynced).
  rewrite Hg in Hlast. exists p'. split_and!; [done | done | by rewrite Hlast |].
  intros Hst Htgt.
  destruct (synced_files_agree o i p s (Hsynced Hst) Htgt) as (c & m & c' & m' & H1 & H2 & H3 & H4).
  exists c, m, c', m'. split_and!; [done..|].
  intros d Hd. rewrite Hlast, Hd. cbn. f_equal. by apply H4.
Qed.

Lemma synced_invariant_witness :
  last_hash (new_FilePair Ex.a_txt Ex.b_txt) = None ∧
  ∃ p',
    file_pairs (self (snd (sync_file Ex.calm 0 (Ex.state false Ex.fs_fresh)))) !! 0%nat
      = Some p' ∧
    last_hash p'
      = from_option Some None
          (copied Ex.calm 0 (new_FilePair Ex.a_txt Ex.b_txt) (Ex.state false Ex.fs_fresh)) ∧
    history 0 (snd (sync_file Ex.calm 0 (Ex.state false Ex.fs_fresh))) (last_hash p') ∧
    (status p' = synced → node_at Ex.fs_fresh Ex.b_txt ≠ Some Dir →
     ∃ c m c' m',
       node_at (fs (snd (sync_file Ex.calm 0 (Ex.state false Ex.fs_fresh)))) Ex.a_txt
         = Some (File c m) ∧
       node_at (fs (snd (sync_file Ex.calm 0 (Ex.state false Ex.fs_fresh)))) Ex.b_txt
         = Some (File c' m') ∧
       SHA256.hexdigest c' = SHA256.hexdigest c ∧
       (∀ d, copied Ex.calm 0 (new_FilePair Ex.a_txt Ex.b_txt) (Ex.state false Ex.fs_fresh)
               = Some d →
             last_hash p' = Some (SHA256.hexdigest c))).
Proof.
  apply (synced_invariant 0 (Ex.state false Ex.fs_fresh) None Ex.calm
           (new_FilePair Ex.a_txt Ex.b_txt)).
  - by apply (history_start 0 _ (new_FilePair Ex.a_txt Ex.b_txt)).
  - reflexivity.
Defined.

(** * Further properties of the monitor *)

(** ** [_send_notification] is best effort *)

(** X1: [_send_notification] never raises and changes neither the monitor,
    nor the files, nor the clock. It hands one notification to the
    notifier when there is a notifier, notifications are enabled and the
    icon can be read, and none otherwise; without a notifier or with
    notifications disabled it does nothing at all; and when reading the
    icon or the notifier itself fails, the failure ends as a warning in
    the log. *)
Theorem send_notification_best_effort o title message nt s :
  ∃ s',
    _send_notification o title message nt s = (Ok tt, s') ∧
    self s' = self s ∧ fs s' = fs s ∧ clock s' = clock s ∧
    notifications (trace s')
    = notifications (trace s) ++
      (if delivered o (self s) then [Notify nt title message] else []) ∧
    (if notifier (self s) && enable_notifications (self s)
     then if icon_raises o || notify_raises o
          then ∃ tr e, trace s' = tr ++ [Log WARNING (FailedToNotify e)]
          else trace s' = trace s ++ [Notify nt title message]
     else s' = s).
Proof.
  exists (notified o title message nt s). rewrite notification_run.
  split_and!; [done..| |].
  - unfold notified. cbn. by rewrite notifications_app, notifications_notify_events.
  - unfold notified, notify_events.
    destruct (notifier (self s) && enable_notifications (self s)); [|apply with_trace_nil].
    destruct (icon_raises o); cbn; [by eexists _, _|].
    destruct (notify_raises o); cbn; [|done].
    exists (trace s ++ [Notify nt title message]), NotifierError. by rewrite <- app_assoc.
Qed.

(** ** What a refresh of the live display does *)


(** ** What a call of [sync_file] leaves alone, and what it counts *)






(** ** Calls one after the other *)



(** X6: only the content counts. When source and target are files with
    the same bytes, whatever their times and modes, a call whose reads do
    not fail takes the no-op path: it returns [True] and leaves every file
    as it is, so a difference in metadata alone is never copied. *)
Theorem sync_file_same_content o i p s c m m' :
  file_pairs (self s) !! i = Some p →
  node_at (fs s) (source p) = Some (File c m) →
  node_at (fs s) (target p) = Some (File c m') →
  no_fault (o_source o) → no_fault (o_target o) →
  ∃ s',
    sync_file o i s = (Ok true, s') ∧
    fs s' = fs s ∧
    file_pairs (self s') !! i = Some (set_status synced p) ∧
    Stats.sync_count (stats (self s')) = Stats.sync_count (stats (self s)).
Proof.
  intros Hp Hsrc Htgt [Hs1 Hs2] [Ht1 Ht2]. exists (end_noop o i p s). split_and!.
  - apply (sync_file_noop_run _ _ _ _ (SHA256.hexdigest c) Hp); by eapply hash_of_readable.
  - apply end_noop_fs.
  - by apply end_noop_pair.
  - apply end_noop_sync_count.
Qed.

Lemma sync_file_same_content_witness :
  ∃ s',
    sync_file Ex.calm 0 (Ex.state false (<[Ex.b_txt := File Ex.v1 {| mtime := 9; mode := 0 |}]> Ex.fs_same))
      = (Ok true, s') ∧
    fs s' = <[Ex.b_txt := File Ex.v1 {| mtime := 9; mode := 0 |}]> Ex.fs_same ∧
    file_pairs (self s') !! 0%nat = Some (set_status synced (new_FilePair Ex.a_txt Ex.b_txt)) ∧
    Stats.sync_count (stats (self s')) = 0%N.
Proof.
  exact (sync_file_same_content Ex.calm 0 (new_FilePair Ex.a_txt Ex.b_txt)
           (Ex.state false (<[Ex.b_txt := File Ex.v1 {| mtime := 9; mode := 0 |}]> Ex.fs_same))
           Ex.v1 Ex.meta0 {| mtime := 9; mode := 0 |}
           eq_refl eq_refl eq_refl (conj eq_refl eq_refl) (conj eq_refl eq_refl)).
Defined.

(** ** The monitor loop and its end *)





















(** ** The whole run *)







(** ** Every invalid pair is reported *)


(** ** A target that is a directory *)







(** ** How long a pass takes *)


